(** * fs: directory creation, directory scanning and renaming over libuv

    A shallow embedding of [src/dir.cc] ([mkdir_], [scandir_]) and
    [src/rename.cc] ([file_rename_]).

    The three exported functions are thin wrappers around blocking libuv
    requests.  What libuv, libbsd and R's memory give back is not part of
    the sources: it is collected in the record [Env], and every definition
    and theorem below is parametrised by it.  The wrappers run in a small
    monad that threads the filesystem, keeps the list of requests issued so
    far, and stops at the first condition raised.  A call that reads the
    entry variable of [scandir_] before anything was stored in it, or whose
    native call does not come back, ends in [Fault].

    Paths and names are R character strings, which hold no NUL: [strcmp],
    [strlen] and [std::string]'s [+] are equality, length and append of
    [string].  The results of the native calls are C [int]s, kept as [Z].
    [uv_fs_req_cleanup] only releases the request and is left out. *)

From Stdlib Require Import ZArith List String Ascii Bool Lia.
Import ListNotations.

Local Open Scope string_scope.
Local Open Scope Z_scope.
Local Open Scope list_scope.

(** ** Directory entries (libuv's [uv_dirent_t]) *)

(** The enumerators of [uv_dirent_type_t], in the order of [uv.h]. *)
Inductive uv_dirent_type_t : Type :=
| UV_DIRENT_UNKNOWN
| UV_DIRENT_FILE
| UV_DIRENT_DIR
| UV_DIRENT_LINK
| UV_DIRENT_FIFO
| UV_DIRENT_SOCKET
| UV_DIRENT_CHAR
| UV_DIRENT_BLOCK.

(** The integer value of an enumerator. *)
Definition dirent_type_value (t : uv_dirent_type_t) : Z :=
  match t with
  | UV_DIRENT_UNKNOWN => 0
  | UV_DIRENT_FILE => 1
  | UV_DIRENT_DIR => 2
  | UV_DIRENT_LINK => 3
  | UV_DIRENT_FIFO => 4
  | UV_DIRENT_SOCKET => 5
  | UV_DIRENT_CHAR => 6
  | UV_DIRENT_BLOCK => 7
  end.

Record uv_dirent_t : Type := { name : string; type : uv_dirent_type_t }.

(** One call of [uv_fs_scandir_next (&req, &e)]: either it returns 0 and
    stores the next entry in [e], or it returns a code and leaves [e] as
    it was. *)
Inductive scandir_next : Type :=
| next_entry (e : uv_dirent_t)
| next_code (c : Z).

(** The request object filled by [uv_fs_scandir]: what the successive calls
    of [uv_fs_scandir_next] on it will give; once the list is used up every
    further call returns [UV_EOF]. *)
Definition uv_fs_t : Type := list scandir_next.

Definition next_res_of (r : scandir_next) : Z :=
  match r with
  | next_entry _ => 0
  | next_code c => c
  end.

(** The entry variable [e] after such a call: [None] as long as nothing was
    stored in it. *)
Definition dirent_after (r : scandir_next) (e : option uv_dirent_t)
  : option uv_dirent_t :=
  match r with
  | next_entry e' => Some e'
  | next_code _ => e
  end.

(** ** The environment *)

Record Env : Type := {
  (** the state of the filesystem *)
  FS : Type;
  (** the compiled mode set that libbsd's [setmode] allocates *)
  bitcmd : Type;
  (** [setmode]: [None] is the null pointer returned for a mode string that
      does not parse *)
  setmode : string -> option bitcmd;
  (** [getmode (out, omode)] on a set that was allocated *)
  getmode : bitcmd -> Z -> Z;
  (** [getmode (NULL, omode)]: [getmode] reads the set its first argument
      points to; [None] when the call does not come back *)
  getmode_null : Z -> option Z;
  (** [uv_fs_mkdir (loop, &req, p, mode, NULL)]: the result and the
      filesystem after the request *)
  uv_fs_mkdir : string -> Z -> FS -> Z * FS;
  (** [uv_fs_scandir (loop, &req, p, 0, NULL)]: the result and the request *)
  uv_fs_scandir : string -> FS -> Z * uv_fs_t;
  (** [uv_fs_rename (loop, &req, path, new_path, NULL)] *)
  uv_fs_rename : string -> string -> FS -> Z * FS;
  (** libuv's description of a result code *)
  uv_strerror : Z -> string;
  UV_EEXIST : Z;
  UV_EOF : Z;
  (** the result codes on which [stop_for_error] raises *)
  is_error : Z -> bool;
  (** the byte stored just before the characters of the empty string *)
  byte_before_empty : ascii;
  (** what [INTEGER(type)[0]] reads when [type] has no element *)
  int_past_end : Z
}.

(** ** Requests, conditions and the monad of the wrappers *)

(** The requests the wrappers hand to libbsd and libuv. *)
Inductive call : Type :=
| call_setmode (mode_str : string)
| call_mkdir (p : string) (mode : Z)
| call_scandir (p : string)
| call_rename (path new_path : string).

(** The condition raised by [stop_for_error]. *)
Record condition : Type := {
  cond_message : string;
  cond_path : string;
  cond_description : string
}.

(** How a call of a wrapper ends: it returns, it is stopped by a condition,
    or it leaves what C defines: a native call it makes does not come back
    from a null pointer, or it reads a variable that was never written. *)
Inductive outcome (A : Type) : Type :=
| Returned (a : A)
| Stopped (c : condition)
| Fault.

Arguments Returned {A} a.
Arguments Stopped {A} c.
Arguments Fault {A}.

Record world (N : Env) : Type := { fs : FS N; log : list call }.

Arguments fs {N} w.
Arguments log {N} w.

Definition M (N : Env) (A : Type) : Type := world N -> outcome A * world N.

Definition ret {N : Env} {A : Type} (a : A) : M N A :=
  fun w => (Returned a, w).

Definition bind {N : Env} {A B : Type} (m : M N A) (k : A -> M N B) : M N B :=
  fun w =>
    match m w with
    | (Returned a, w') => k a w'
    | (Stopped c, w') => (Stopped c, w')
    | (Fault, w') => (Fault, w')
    end.

Definition stop {N : Env} {A : Type} (c : condition) : M N A :=
  fun w => (Stopped c, w).

Definition fault {N : Env} {A : Type} : M N A :=
  fun w => (Fault, w).

Declare Scope fs_scope.
Delimit Scope fs_scope with fs.

Notation "x <- m ;; k" := (bind m (fun x => k))
  (at level 100, m at next level, right associativity) : fs_scope.
Notation "m ;; k" := (bind m (fun _ => k))
  (at level 100, right associativity) : fs_scope.

Local Open Scope fs_scope.

Section Wrappers.

Variable N : Env.

(** *** The native calls, each recorded in the log *)

Definition do_setmode (mode_str : string) : M N (option (bitcmd N)) :=
  fun w =>
    (Returned (setmode N mode_str),
     {| fs := fs w; log := log w ++ [call_setmode mode_str] |}).

Definition do_getmode (out : option (bitcmd N)) (omode : Z) : M N Z :=
  match out with
  | Some set => ret (getmode N set omode)
  | None =>
      match getmode_null N omode with
      | Some mode => ret mode
      | None => fault
      end
  end.

Definition do_uv_fs_mkdir (p : string) (mode : Z) : M N Z :=
  fun w =>
    let (fd, fs') := uv_fs_mkdir N p mode (fs w) in
    (Returned fd, {| fs := fs'; log := log w ++ [call_mkdir p mode] |}).

Definition do_uv_fs_scandir (p : string) : M N (Z * uv_fs_t) :=
  fun w =>
    (Returned (uv_fs_scandir N p (fs w)),
     {| fs := fs w; log := log w ++ [call_scandir p] |}).

Definition do_uv_fs_rename (path new_path : string) : M N Z :=
  fun w =>
    let (r, fs') := uv_fs_rename N path new_path (fs w) in
    (Returned r, {| fs := fs'; log := log w ++ [call_rename path new_path] |}).

(** Modelled from the spec: [stop_for_error] is declared in [utils.h], which
    is not among the sources.  By the spec a failing native result is
    "surfaced to the caller with the offending path and the native error
    description" and aborts the call; which result codes count as failing is
    the field [is_error] of the environment. *)
Definition stop_for_error (message p : string) (err : Z) : M N unit :=
  if is_error N err
  then stop {| cond_message := message;
               cond_path := p;
               cond_description := uv_strerror N err |}
  else ret tt.

(** *** [mkdir_] (dir.cc, lines 16-31) *)

(** The [for] loop over [path]. *)
Fixpoint mkdir_loop (mode : Z) (path : list string) : M N unit :=
  match path with
  | [] => ret tt
  | p :: rest =>
      fd <- do_uv_fs_mkdir p mode ;;
      (if negb (fd =? UV_EEXIST N)
       then stop_for_error "Failed to make directory" p fd
       else ret tt) ;;
      mkdir_loop mode rest
  end.

(** [setmode]'s result goes to [getmode] as it is, null or not. *)
Definition mkdir_ (path : list string) (mode_str : string) : M N unit :=
  out <- do_setmode mode_str ;;
  mode <- do_getmode out 0 ;;
  mkdir_loop mode path.

(** *** [scandir_] (dir.cc, lines 34-77) *)

(** [(uv_dirent_type_t) file_type]: the conversion of an [int] to the
    unsigned type that underlies the enumeration. *)
Definition to_dirent_type (file_type : Z) : Z := file_type mod 2 ^ 32.

(** [file_type == -1 || e.type == (uv_dirent_type_t) file_type] *)
Definition selected (file_type : Z) (e : uv_dirent_t) : bool :=
  (file_type =? -1) || (dirent_type_value (type e) =? to_dirent_type file_type).

(** [p[strlen (p) - 1]], with [prev] the byte stored before [p]. *)
Fixpoint last_char (prev : ascii) (p : string) : ascii :=
  match p with
  | EmptyString => prev
  | String c p' => last_char c p'
  end.

(** The string pushed on [files] for an entry (lines 57-65). *)
Definition joined_path (p entry : string) : string :=
  if String.eqb p "."
  then entry
  else if Ascii.eqb (last_char (byte_before_empty N) p) "/"
       then (p ++ entry)%string
       else (p ++ String "/" entry)%string.

(** The [while] loop: [req] is the request as it stands, [e] the entry
    variable ([None] while it is unwritten), [files] the vector filled so
    far.  The body reads [e.type] or [e.name] (lines 52-65) before it tests
    [next_res] (lines 67-69): when [uv_fs_scandir_next] gave a code and
    nothing was ever stored in [e], that read is of an unwritten variable. *)
Fixpoint scandir_while (p : string) (file_type : Z) (req : uv_fs_t)
    (e : option uv_dirent_t) (files : list string) : M N (list string) :=
  match req with
  | [] => ret files
  | r :: req' =>
      let next_res := next_res_of r in
      let e := dirent_after r e in
      if next_res =? UV_EOF N
      then ret files
      else
        match e with
        | None => fault
        | Some e_now =>
            let files :=
              if selected file_type e_now
              then files ++ [joined_path p (name e_now)]
              else files in
            (if negb (next_res =? UV_EOF N)
             then stop_for_error "Failed to search directory" p next_res
             else ret tt) ;;
            scandir_while p file_type req' e files
        end
  end.

(** [SET_VECTOR_ELT (out, i, x)] *)
Fixpoint SET_VECTOR_ELT {A : Type} (out : list A) (i : nat) (x : A) : list A :=
  match out, i with
  | [], _ => []
  | _ :: out', O => x :: out'
  | y :: out', S i' => y :: SET_VECTOR_ELT out' i' x
  end.

(** The [for] loop over [path], from index [i] on.  [uv_dirent_t e] is
    declared anew, and unwritten, for every path. *)
Fixpoint scandir_for (file_type : Z) (path : list string) (i : nat)
    (out : list (option (list string))) (files : list string)
  : M N (list (option (list string)) * list string) :=
  match path with
  | [] => ret (out, files)
  | p :: rest =>
      res_req <- do_uv_fs_scandir p ;;
      stop_for_error "Failed to search directory" p (fst res_req) ;;
      files <- scandir_while p file_type (snd res_req) None files ;;
      let out := SET_VECTOR_ELT out i (Some files) in
      scandir_for file_type rest (S i) out files
  end.

Definition scandir_ (path : list string) (type : list Z) (recurse : bool)
  : M N (list string) :=
  let out := repeat None (List.length path) in
  let file_type := hd (int_past_end N) type in
  out_files <- scandir_for file_type path 0 out [] ;;
  ret (snd out_files).

(** *** [file_rename_] (rename.cc, lines 7-11) *)

Definition file_rename_ (path new_path : string) : M N unit :=
  _ <- do_uv_fs_rename path new_path ;;
  ret tt.

End Wrappers.

(** ** Definitions used to state the properties *)

(** The [for] loop of [scandir_] without the list [out], which is filled and
    never read. *)
Fixpoint scan_paths (N : Env) (file_type : Z) (path : list string)
    (files : list string) : M N (list string) :=
  match path with
  | [] => ret files
  | p :: rest =>
      res_req <- do_uv_fs_scandir N p ;;
      stop_for_error N "Failed to search directory" p (fst res_req) ;;
      files <- scandir_while N p file_type (snd res_req) None files ;;
      scan_paths N file_type rest files
  end.

(** In filesystem [f] the directory [p] opens without error and its stream
    gives the entries [es], then ends. *)
Definition listing_ok (N : Env) (f : FS N) (p : string)
    (es : list uv_dirent_t) : Prop :=
  is_error N (fst (uv_fs_scandir N p f)) = false /\
  snd (uv_fs_scandir N p f) = map next_entry es.

(** A step of a directory stream that neither ends the loop nor raises. *)
Definition step_passes (N : Env) (r : scandir_next) : Prop :=
  next_res_of r <> UV_EOF N /\ is_error N (next_res_of r) = false.

(** The first call of [uv_fs_scandir_next] on the request stores an entry. *)
Definition first_is_entry (req : uv_fs_t) : Prop :=
  match req with
  | next_entry _ :: _ => True
  | _ => False
  end.

(** Scanning one directory fails with code [c]: either [uv_fs_scandir]
    gives a failing [res = c], or it does not and, in a stream whose first
    step stored an entry, after steps that pass, a step gives a failing [c]
    other than [UV_EOF]. *)
Inductive scan_failure (N : Env) : Z -> uv_fs_t -> Z -> Prop :=
| open_fails (res : Z) (req : uv_fs_t) :
    is_error N res = true ->
    scan_failure N res req res
| step_fails (res : Z) (before : uv_fs_t) (r : scandir_next)
    (after : uv_fs_t) :
    is_error N res = false ->
    first_is_entry (before ++ r :: after) ->
    Forall (step_passes N) before ->
    next_res_of r <> UV_EOF N ->
    is_error N (next_res_of r) = true ->
    scan_failure N res (before ++ r :: after) (next_res_of r).

(** The mode of every request of [mkdir_] when the mode string parses. *)
Definition parsed_mode (N : Env) (set : bitcmd N) : Z := getmode N set 0.

(** Starting in filesystem [f], the request for each path of [path], made in
    order with mode [mode], reports [UV_EEXIST] or a result on which
    [stop_for_error] does not raise. *)
Fixpoint mkdir_all_pass (N : Env) (mode : Z) (path : list string) (f : FS N)
  : Prop :=
  match path with
  | [] => True
  | p :: rest =>
      (fst (uv_fs_mkdir N p mode f) = UV_EEXIST N \/
       is_error N (fst (uv_fs_mkdir N p mode f)) = false) /\
      mkdir_all_pass N mode rest (snd (uv_fs_mkdir N p mode f))
  end.

(** ** A concrete environment

    Directories are kept as the list of their names; the codes are those of
    libuv on Linux ([UV_EEXIST] is -17, [UV_ENOENT] -2, [UV_EIO] -5, [UV_EOF]
    -4095), and [stop_for_error] raises on the negative ones. *)

Definition sample_entries : list uv_dirent_t :=
  [ {| name := "file"; type := UV_DIRENT_FILE |};
    {| name := "sub"; type := UV_DIRENT_DIR |} ].

Definition sample_mkdir (p : string) (mode : Z) (dirs : list string)
  : Z * list string :=
  if existsb (String.eqb p) dirs then (-17, dirs)
  else if String.eqb p "" then (-2, dirs)
  else (0, p :: dirs).

Definition sample_scandir (p : string) (dirs : list string) : Z * uv_fs_t :=
  if String.eqb p "/unread" then (1, [next_code (-5)])
  else if String.eqb p "/broken" then (2, [next_entry {| name := "file"; type := UV_DIRENT_FILE |}; next_code (-5)])
  else if existsb (String.eqb p) dirs then (2, map next_entry sample_entries)
  else (-2, []).

Definition sample_rename (path new_path : string) (dirs : list string)
  : Z * list string :=
  if existsb (String.eqb path) dirs
  then (0, new_path :: filter (fun d => negb (String.eqb d path)) dirs)
  else (-2, dirs).

Definition sample_strerror (err : Z) : string :=
  if err =? -17 then "file already exists"
  else if err =? -2 then "no such file or directory"
  else if err =? -5 then "i/o error"
  else "unknown error".

Definition sample : Env := {|
  FS := list string;
  bitcmd := Z;
  setmode := fun mode_str =>
    if String.eqb mode_str "755" then Some 493
    else if String.eqb mode_str "700" then Some 448
    else None;
  getmode := fun set omode => set;
  getmode_null := fun omode => None;
  uv_fs_mkdir := sample_mkdir;
  uv_fs_scandir := sample_scandir;
  uv_fs_rename := sample_rename;
  uv_strerror := sample_strerror;
  UV_EEXIST := -17;
  UV_EOF := -4095;
  is_error := fun err => err <? 0;
  byte_before_empty := "000"%char;
  int_past_end := 0
|}.

(** A filesystem with [/tmp], [/tmp/] and [.] as directories, and nothing
    requested yet. *)
Definition sample_world : world sample :=
  {| fs := ["/tmp"; "/tmp/"; "."] : FS sample; log := [] |}.

(** ** The monad *)

Lemma bind_assoc (N : Env) (A B C : Type) (m : M N A) (k : A -> M N B)
    (h : B -> M N C) (w : world N) :
  bind (bind m k) h w = bind m (fun a => bind (k a) h) w.
Proof.
  unfold bind. destruct (m w) as [[a | c |] w']; reflexivity.
Qed.

Lemma bind_returned (N : Env) (A B : Type) (m : M N A) (k : A -> M N B)
    (w w' : world N) (a : A) :
  m w = (Returned a, w') -> bind m k w = k a w'.
Proof.
  intros H. unfold bind. rewrite H. reflexivity.
Qed.

Lemma bind_stopped (N : Env) (A B : Type) (m : M N A) (k : A -> M N B)
    (w w' : world N) (c : condition) :
  m w = (Stopped c, w') -> bind m k w = (Stopped c, w').
Proof.
  intros H. unfold bind. rewrite H. reflexivity.
Qed.

Lemma bind_ext (N : Env) (A B : Type) (m : M N A) (k h : A -> M N B)
    (w : world N) :
  (forall a w', k a w' = h a w') -> bind m k w = bind m h w.
Proof.
  intros H. unfold bind. destruct (m w) as [[a | c |] w']; auto.
Qed.

(** ** [file_rename_] *)

(** C2: [file_rename_] hands exactly one rename request to libuv and
    returns nothing, whatever the request's result: no condition is raised
    on any pair of paths in any filesystem. *)
Theorem file_rename_never_raises (N : Env) (path new_path : string)
    (w : world N) :
  file_rename_ N path new_path w =
  (Returned tt,
   {| fs := snd (uv_fs_rename N path new_path (fs w));
      log := log w ++ [call_rename path new_path] |}).
Proof.
  unfold file_rename_, bind, do_uv_fs_rename, ret.
  destruct (uv_fs_rename N path new_path (fs w)) as [r f']. reflexivity.
Qed.

Example file_rename_missing_source :
  file_rename_ sample "/nowhere" "/tmp/x" sample_world =
  (Returned tt,
   {| fs := fs sample_world; log := [call_rename "/nowhere" "/tmp/x"] |}).
Proof. reflexivity. Qed.

(** ** [mkdir_] *)

Section Mkdir.

Variable N : Env.

(** One turn of the loop, by the result of the request. *)
Lemma mkdir_loop_cons (mode : Z) (p : string) (rest : list string)
    (w : world N) (fd : Z) (f' : FS N) :
  uv_fs_mkdir N p mode (fs w) = (fd, f') ->
  mkdir_loop N mode (p :: rest) w =
  let w' := {| fs := f'; log := log w ++ [call_mkdir p mode] |} in
  if fd =? UV_EEXIST N then mkdir_loop N mode rest w'
  else if is_error N fd
       then (Stopped {| cond_message := "Failed to make directory";
                        cond_path := p;
                        cond_description := uv_strerror N fd |}, w')
       else mkdir_loop N mode rest w'.
Proof.
  intros H. cbn [mkdir_loop]. unfold bind at 1. unfold do_uv_fs_mkdir.
  rewrite H. cbv zeta. unfold bind at 1.
  destruct (fd =? UV_EEXIST N); cbn [negb].
  - reflexivity.
  - unfold stop_for_error. destruct (is_error N fd); reflexivity.
Qed.

Lemma mkdir_loop_app (mode : Z) (xs ys : list string) (w : world N) :
  mkdir_loop N mode (xs ++ ys) w =
  bind (mkdir_loop N mode xs) (fun _ => mkdir_loop N mode ys) w.
Proof.
  revert w. induction xs as [| x xs IH]; intros w.
  - reflexivity.
  - cbn [app mkdir_loop]. rewrite bind_assoc.
    apply bind_ext; intros fd w1.
    rewrite bind_assoc. apply bind_ext; intros _ w2. apply IH.
Qed.

(** What a loop that came to its end has done: one request per path, in
    the order of the paths, each acting on the filesystem the one before
    left. *)
Lemma mkdir_loop_returned (mode : Z) (path : list string) (w w1 : world N) :
  mkdir_loop N mode path w = (Returned tt, w1) ->
  log w1 = log w ++ map (fun p => call_mkdir p mode) path /\
  fs w1 = fold_left (fun f p => snd (uv_fs_mkdir N p mode f)) path (fs w).
Proof.
  revert w. induction path as [| p rest IH]; intros w H.
  - cbn in H. injection H as <-. cbn. rewrite app_nil_r. split; reflexivity.
  - destruct (uv_fs_mkdir N p mode (fs w)) as [fd f'] eqn:E.
    rewrite (mkdir_loop_cons mode p rest w fd f' E) in H. cbv zeta in H.
    assert (K : mkdir_loop N mode rest
                  {| fs := f'; log := log w ++ [call_mkdir p mode] |} =
                (Returned tt, w1)).
    { destruct (fd =? UV_EEXIST N); [exact H |].
      destruct (is_error N fd); [discriminate H | exact H]. }
    apply IH in K. cbn [fs log] in K. destruct K as [K1 K2].
    cbn [map fold_left]. rewrite E. cbn [snd].
    split; [rewrite K1, <- app_assoc; reflexivity | exact K2].
Qed.

Lemma mkdir_parsed (path : list string) (mode_str : string)
    (set : bitcmd N) (w : world N) :
  setmode N mode_str = Some set ->
  mkdir_ N path mode_str w =
  mkdir_loop N (parsed_mode N set) path
    {| fs := fs w; log := log w ++ [call_setmode mode_str] |}.
Proof.
  intros H. unfold mkdir_, bind, do_setmode. rewrite H. reflexivity.
Qed.

(** No test stands between [setmode] and [getmode]: on a mode string that
    does not parse, what the call does is what [getmode] does with the null
    pointer. *)
Lemma mkdir_not_parsed (path : list string) (mode_str : string)
    (w : world N) :
  setmode N mode_str = None ->
  mkdir_ N path mode_str w =
  let w' := {| fs := fs w; log := log w ++ [call_setmode mode_str] |} in
  match getmode_null N 0 with
  | Some mode => mkdir_loop N mode path w'
  | None => (Fault, w')
  end.
Proof.
  intros H. unfold mkdir_, bind, do_setmode, do_getmode. rewrite H.
  destruct (getmode_null N 0); reflexivity.
Qed.

(** Whatever the outcome, the requests of the loop are those for the first
    [k] paths, in order, for some [k]. *)
Lemma mkdir_loop_log (mode : Z) (path : list string) (w : world N) :
  exists k : nat,
    log (snd (mkdir_loop N mode path w)) =
    log w ++ map (fun p => call_mkdir p mode) (firstn k path).
Proof.
  revert w. induction path as [| p rest IH]; intros w.
  - exists 0%nat. cbn. rewrite app_nil_r. reflexivity.
  - destruct (uv_fs_mkdir N p mode (fs w)) as [fd f'] eqn:E.
    rewrite (mkdir_loop_cons mode p rest w fd f' E). cbv zeta.
    destruct (IH {| fs := f'; log := log w ++ [call_mkdir p mode] |})
      as [k Hk].
    cbn [log] in Hk. rewrite <- app_assoc in Hk.
    destruct (fd =? UV_EEXIST N); [exists (S k); exact Hk |].
    destruct (is_error N fd); [| exists (S k); exact Hk].
    exists 1%nat. reflexivity.
Qed.

(** [setmode] is called once, before every request for a directory. *)
Lemma mkdir_setmode_first (path : list string) (mode_str : string)
    (w : world N) :
  exists (mode : Z) (k : nat),
    log (snd (mkdir_ N path mode_str w)) =
    log w ++ call_setmode mode_str
          :: map (fun p => call_mkdir p mode) (firstn k path).
Proof.
  destruct (setmode N mode_str) as [set |] eqn:E.
  - rewrite (mkdir_parsed path mode_str set w E).
    destruct (mkdir_loop_log (parsed_mode N set) path
                {| fs := fs w; log := log w ++ [call_setmode mode_str] |})
      as [k Hk].
    exists (parsed_mode N set), k. rewrite Hk. cbn [log].
    rewrite <- app_assoc. reflexivity.
  - rewrite (mkdir_not_parsed path mode_str w E). cbv zeta.
    destruct (getmode_null N 0) as [mode |].
    + destruct (mkdir_loop_log mode path
                  {| fs := fs w; log := log w ++ [call_setmode mode_str] |})
        as [k Hk].
      exists mode, k. rewrite Hk. cbn [log].
      rewrite <- app_assoc. reflexivity.
    + exists 0, 0%nat. reflexivity.
Qed.

(** Where the call stands when it reaches the path that follows
    [path_before]. *)
Lemma mkdir_reaches (path_before rest : list string) (mode_str : string)
    (set : bitcmd N) (w w1 : world N) :
  setmode N mode_str = Some set ->
  mkdir_ N path_before mode_str w = (Returned tt, w1) ->
  mkdir_ N (path_before ++ rest) mode_str w =
  mkdir_loop N (parsed_mode N set) rest w1.
Proof.
  intros Hs Hb. rewrite (mkdir_parsed _ _ set _ Hs).
  rewrite (mkdir_parsed _ _ set _ Hs) in Hb.
  rewrite mkdir_loop_app.
  exact (bind_returned N unit unit _
           (fun _ => mkdir_loop N (parsed_mode N set) rest) _ w1 tt Hb).
Qed.

(** C1: when the mode string parses and the request for a path reports
    [UV_EEXIST], [mkdir_] raises nothing for that path and goes on with the
    paths after it: from there the call is the loop over the remaining
    paths. *)
Theorem mkdir_eexist_is_success (path_before : list string) (p : string)
    (path_after : list string) (mode_str : string) (set : bitcmd N)
    (w w1 : world N) (f2 : FS N) :
  setmode N mode_str = Some set ->
  mkdir_ N path_before mode_str w = (Returned tt, w1) ->
  uv_fs_mkdir N p (parsed_mode N set) (fs w1) = (UV_EEXIST N, f2) ->
  mkdir_ N (path_before ++ p :: path_after) mode_str w =
  mkdir_loop N (parsed_mode N set) path_after
    {| fs := f2; log := log w1 ++ [call_mkdir p (parsed_mode N set)] |}.
Proof.
  intros Hs Hb Hp.
  rewrite (mkdir_reaches path_before (p :: path_after) mode_str set w w1 Hs Hb).
  rewrite (mkdir_loop_cons _ p path_after w1 _ f2 Hp). cbv zeta.
  rewrite Z.eqb_refl. reflexivity.
Qed.

(** C9: the paths are taken in order, and at the first path whose request
    gives a failing result other than [UV_EEXIST] the call is stopped with
    the condition for that path.  The requests issued are those for the
    paths before it, in order, and the one for the failing path; the
    filesystem is the one those requests left, so what the earlier paths
    created stays; nothing is requested for the paths after. *)
Theorem mkdir_aborts_at_first_failure (path_before : list string)
    (p : string) (path_after : list string) (mode_str : string)
    (set : bitcmd N) (w w1 : world N) (fd : Z) (f2 : FS N) :
  setmode N mode_str = Some set ->
  mkdir_ N path_before mode_str w = (Returned tt, w1) ->
  uv_fs_mkdir N p (parsed_mode N set) (fs w1) = (fd, f2) ->
  fd <> UV_EEXIST N ->
  is_error N fd = true ->
  let mode := parsed_mode N set in
  mkdir_ N (path_before ++ p :: path_after) mode_str w =
  (Stopped {| cond_message := "Failed to make directory";
              cond_path := p;
              cond_description := uv_strerror N fd |},
   {| fs := f2;
      log := log w ++ call_setmode mode_str
             :: map (fun q => call_mkdir q mode) (path_before ++ [p]) |}) /\
  fs w1 = fold_left (fun f q => snd (uv_fs_mkdir N q mode f)) path_before (fs w).
Proof.
  intros Hs Hb Hp Hne Herr mode.
  rewrite (mkdir_reaches path_before (p :: path_after) mode_str set w w1 Hs Hb).
  rewrite (mkdir_loop_cons _ p path_after w1 _ f2 Hp). cbv zeta.
  apply Z.eqb_neq in Hne. rewrite Hne, Herr.
  rewrite (mkdir_parsed _ _ set _ Hs) in Hb.
  apply mkdir_loop_returned in Hb. cbn [fs log] in Hb. destruct Hb as [L F].
  split; [| exact F].
  rewrite L, map_app, <- !app_assoc. reflexivity.
Qed.

End Mkdir.

Lemma mkdir_eexist_is_success_witness :
  mkdir_ sample (["/a"] ++ "/tmp" :: ["/b"]) "755" sample_world =
  mkdir_loop sample 493 ["/b"]
    {| fs := ["/a"; "/tmp"; "/tmp/"; "."] : FS sample;
       log := [call_setmode "755"; call_mkdir "/a" 493; call_mkdir "/tmp" 493] |}.
Proof.
  apply (mkdir_eexist_is_success sample ["/a"] "/tmp" ["/b"] "755" 493
           sample_world
           {| fs := ["/a"; "/tmp"; "/tmp/"; "."] : FS sample;
              log := [call_setmode "755"; call_mkdir "/a" 493] |}
           (["/a"; "/tmp"; "/tmp/"; "."] : FS sample)).
  - reflexivity.
  - reflexivity.
  - reflexivity.
Defined.

Lemma mkdir_aborts_at_first_failure_witness :
  mkdir_ sample (["/a"] ++ "" :: ["/b"]) "755" sample_world =
  (Stopped {| cond_message := "Failed to make directory";
              cond_path := "";
              cond_description := "no such file or directory" |},
   {| fs := ["/a"; "/tmp"; "/tmp/"; "."] : FS sample;
      log := [call_setmode "755"; call_mkdir "/a" 493; call_mkdir "" 493] |}).
Proof.
  apply (mkdir_aborts_at_first_failure sample ["/a"] "" ["/b"] "755" 493
           sample_world
           {| fs := ["/a"; "/tmp"; "/tmp/"; "."] : FS sample;
              log := [call_setmode "755"; call_mkdir "/a" 493] |}
           (-2) (["/a"; "/tmp"; "/tmp/"; "."] : FS sample)).
  - reflexivity.
  - reflexivity.
  - reflexivity.
  - discriminate.
  - reflexivity.
Defined.

(** C5: [mkdir_] calls [setmode] once, before the loop, and does not test
    what it returns.  On a mode string that does not parse the null pointer
    goes to [getmode]: the call ends there in a fault, after the one request
    to [setmode] and with the filesystem as it was, and raises no
    condition. *)
Theorem mkdir_unparseable_mode_faults :
  setmode sample "rwx?" = None /\
  mkdir_ sample ["/new"] "rwx?" sample_world =
  (Fault, {| fs := fs sample_world; log := [call_setmode "rwx?"] |}).
Proof.
  split; [reflexivity |].
  rewrite (mkdir_not_parsed sample ["/new"] "rwx?" sample_world eq_refl).
  reflexivity.
Qed.

(** ** [scandir_] *)

Section Scandir.

Variable N : Env.

(** *** The joined path *)

Lemma last_char_append (prev c : ascii) (q : string) :
  last_char prev (q ++ String c "")%string = c.
Proof.
  revert prev. induction q as [| a q IH]; intros prev; cbn; auto.
Qed.

Lemma last_char_inv (prev : ascii) (p : string) :
  p <> "" -> exists q, p = (q ++ String (last_char prev p) "")%string.
Proof.
  revert prev. induction p as [| a p IH]; intros prev Hne.
  - contradiction.
  - destruct p as [| b p'].
    + exists "". reflexivity.
    + destruct (IH a) as [q Hq]; [discriminate |].
      exists (String a q). cbn [last_char] in *. cbn [append].
      rewrite <- Hq. reflexivity.
Qed.

Lemma joined_path_dot (entry : string) : joined_path N "." entry = entry.
Proof. reflexivity. Qed.

Lemma joined_path_separator (p entry : string) :
  p <> "." -> (exists q, p = (q ++ "/")%string) ->
  joined_path N p entry = (p ++ entry)%string.
Proof.
  intros Hdot [q ->]. unfold joined_path.
  apply String.eqb_neq in Hdot. rewrite Hdot.
  rewrite last_char_append. reflexivity.
Qed.

Lemma joined_path_other (p entry : string) :
  p <> "." ->
  (p = "" -> byte_before_empty N <> "/"%char) ->
  ~ (exists q, p = (q ++ "/")%string) ->
  joined_path N p entry = (p ++ String "/" entry)%string.
Proof.
  intros Hdot Hne Hsep. unfold joined_path.
  apply String.eqb_neq in Hdot. rewrite Hdot.
  destruct (Ascii.eqb_spec (last_char (byte_before_empty N) p) "/") as [E | E].
  - exfalso. destruct (string_dec p "") as [-> | Hp].
    + exact (Hne eq_refl E).
    + apply Hsep.
      destruct (last_char_inv (byte_before_empty N) p Hp) as [q Hq].
      exists q. rewrite E in Hq. exact Hq.
  - reflexivity.
Qed.

(** *** The [while] loop *)

(** One turn of the loop on a step that is not [UV_EOF]. *)
Lemma scandir_while_cons (p : string) (file_type : Z) (r : scandir_next)
    (req : uv_fs_t) (e : option uv_dirent_t) (files : list string)
    (w : world N) :
  next_res_of r <> UV_EOF N ->
  scandir_while N p file_type (r :: req) e files w =
  match dirent_after r e with
  | None => (Fault, w)
  | Some e_now =>
      let files' :=
        if selected file_type e_now
        then files ++ [joined_path N p (name e_now)]
        else files in
      if is_error N (next_res_of r)
      then (Stopped {| cond_message := "Failed to search directory";
                       cond_path := p;
                       cond_description := uv_strerror N (next_res_of r) |},
            w)
      else scandir_while N p file_type req (Some e_now) files' w
  end.
Proof.
  intros H. apply Z.eqb_neq in H. cbn [scandir_while]. rewrite H.
  destruct (dirent_after r e) as [e_now |]; [| reflexivity].
  cbn [negb]. unfold bind at 1, stop_for_error.
  destruct (is_error N (next_res_of r)); reflexivity.
Qed.


Lemma scandir_while_entries (p : string) (file_type : Z)
    (es : list uv_dirent_t) (e : option uv_dirent_t) (files : list string)
    (w : world N) :
  UV_EOF N <> 0 -> is_error N 0 = false ->
  scandir_while N p file_type (map next_entry es) e files w =
  (Returned
     (files ++
      map (fun e' => joined_path N p (name e')) (filter (selected file_type) es)),
   w).
Proof.
  intros Heof H0. revert e files.
  induction es as [| e1 es IH]; intros e files.
  - cbn. rewrite app_nil_r. reflexivity.
  - cbn [map]. rewrite scandir_while_cons by (cbn; congruence).
    cbn [next_res_of dirent_after]. cbv zeta. rewrite H0, IH.
    cbn [filter]. destruct (selected file_type e1).
    + cbn [map]. rewrite <- app_assoc. reflexivity.
    + reflexivity.
Qed.


(** A first step that gives a code other than [UV_EOF] finds [e] unwritten:
    the body reads it all the same. *)
Lemma scandir_while_unwritten (p : string) (file_type : Z) (c : Z)
    (req : uv_fs_t) (files : list string) (w : world N) :
  c <> UV_EOF N ->
  scandir_while N p file_type (next_code c :: req) None files w = (Fault, w).
Proof.
  intros H. rewrite scandir_while_cons by exact H. reflexivity.
Qed.

(** *** The [for] loop *)

Lemma scandir_for_files (file_type : Z) (path : list string) (i : nat)
    (out : list (option (list string))) (files : list string) (w : world N) :
  bind (scandir_for N file_type path i out files)
       (fun out_files => ret (snd out_files)) w =
  scan_paths N file_type path files w.
Proof.
  revert i out files w. induction path as [| p rest IH]; intros i out files w.
  - reflexivity.
  - cbn [scandir_for scan_paths]. rewrite bind_assoc.
    apply bind_ext; intros res_req w1.
    rewrite bind_assoc. apply bind_ext; intros _ w2.
    rewrite bind_assoc. apply bind_ext; intros files' w3.
    apply IH.
Qed.

Lemma scandir_scan_paths (path : list string) (type : list Z)
    (recurse : bool) (w : world N) :
  scandir_ N path type recurse w =
  scan_paths N (hd (int_past_end N) type) path [] w.
Proof.
  unfold scandir_. apply scandir_for_files.
Qed.

Lemma scan_paths_app (file_type : Z) (xs ys : list string)
    (files : list string) (w : world N) :
  scan_paths N file_type (xs ++ ys) files w =
  bind (scan_paths N file_type xs files)
       (fun files' => scan_paths N file_type ys files') w.
Proof.
  revert files w. induction xs as [| x xs IH]; intros files w.
  - reflexivity.
  - cbn [app scan_paths]. rewrite bind_assoc.
    apply bind_ext; intros res_req w1.
    rewrite bind_assoc. apply bind_ext; intros _ w2.
    rewrite bind_assoc. apply bind_ext; intros files' w3.
    apply IH.
Qed.

(** One turn of the [for] loop, by what [uv_fs_scandir] gives. *)
Lemma scan_paths_cons (file_type : Z) (p : string) (rest : list string)
    (files : list string) (w : world N) :
  scan_paths N file_type (p :: rest) files w =
  let w' := {| fs := fs w; log := log w ++ [call_scandir p] |} in
  let res := fst (uv_fs_scandir N p (fs w)) in
  let req := snd (uv_fs_scandir N p (fs w)) in
  if is_error N res
  then (Stopped {| cond_message := "Failed to search directory";
                   cond_path := p;
                   cond_description := uv_strerror N res |}, w')
  else bind (scandir_while N p file_type req None files)
            (fun files' => scan_paths N file_type rest files') w'.
Proof.
  cbn [scan_paths]. unfold bind at 1, do_uv_fs_scandir. cbv zeta.
  unfold bind at 1, stop_for_error.
  destruct (is_error N (fst (uv_fs_scandir N p (fs w)))); reflexivity.
Qed.

(** A scan in which every directory opens and lists cleanly. *)
Lemma scan_paths_clean (file_type : Z) (entries : string -> list uv_dirent_t)
    (path : list string) (files : list string) (w : world N) :
  UV_EOF N <> 0 -> is_error N 0 = false ->
  (forall p, In p path -> listing_ok N (fs w) p (entries p)) ->
  scan_paths N file_type path files w =
  (Returned
     (files ++
      List.concat (map (fun p =>
                     map (fun e => joined_path N p (name e))
                         (filter (selected file_type) (entries p)))
                  path)),
   {| fs := fs w; log := log w ++ map call_scandir path |}).
Proof.
  intros Heof H0. revert files w.
  induction path as [| p rest IH]; intros files w Hok.
  - cbn. rewrite !app_nil_r. destruct w; reflexivity.
  - rewrite scan_paths_cons. cbv zeta.
    destruct (Hok p (or_introl eq_refl)) as [Hres Hreq].
    rewrite Hres, Hreq.
    unfold bind. rewrite scandir_while_entries by assumption.
    rewrite IH.
    + cbn [fs log map concat]. rewrite <- !app_assoc. reflexivity.
    + intros q Hq. cbn [fs]. apply Hok. right. exact Hq.
Qed.

End Scandir.

(** *** The filter *)

Lemma dirent_type_value_range (t : uv_dirent_type_t) :
  0 <= dirent_type_value t <= 7.
Proof. destruct t; cbn; lia. Qed.

(** For a [file_type] that is an [int], the test of the code is the test on
    the values: the conversion to the enumeration changes nothing. *)
Lemma selected_iff (file_type : Z) (e : uv_dirent_t) :
  - 2 ^ 31 <= file_type < 2 ^ 31 ->
  selected file_type e = true <->
  file_type = -1 \/ dirent_type_value (type e) = file_type.
Proof.
  intros Hr. unfold selected, to_dirent_type.
  rewrite orb_true_iff, !Z.eqb_eq.
  pose proof (dirent_type_value_range (type e)) as Ht.
  split; intros [H | H]; auto; right.
  - destruct (Z_lt_le_dec file_type 0) as [Hneg | Hpos].
    + exfalso.
      assert (K : file_type mod 2 ^ 32 = file_type + 2 ^ 32).
      { symmetry. apply (Z.mod_unique file_type (2 ^ 32) (-1)); lia. }
      lia.
    + rewrite Z.mod_small in H by lia. exact H.
  - rewrite Z.mod_small by lia. exact H.
Qed.

Lemma filter_none (A : Type) (f : A -> bool) (l : list A) :
  (forall x, In x l -> f x = false) -> filter f l = [].
Proof.
  induction l as [| x l IH]; intros H; cbn.
  - reflexivity.
  - rewrite (H x (or_introl eq_refl)). apply IH.
    intros y Hy. apply H. right. exact Hy.
Qed.

Section ScandirProperties.

Variable N : Env.

(** C3: the path pushed for an entry that passes the filter follows the
    three cases.  Scanning a directory [p] that opens and lists cleanly
    returns, for the entries that pass, [joined] of their names, where
    [joined] is the bare name when [p] is ".", [p] followed by the name
    when [p] ends with '/', and [p], one '/', then the name otherwise.
    For the empty path the code reads the byte stored before the string:
    the third case holds there when that byte is not '/'. *)
Theorem scandir_joined_path_rule (p : string) (es : list uv_dirent_t)
    (file_type : Z) (more : list Z) (recurse : bool) (w : world N) :
  UV_EOF N <> 0 ->
  is_error N 0 = false ->
  listing_ok N (fs w) p es ->
  exists joined : string -> string,
    fst (scandir_ N [p] (file_type :: more) recurse w) =
    Returned (map (fun e => joined (name e)) (filter (selected file_type) es)) /\
    (p = "." -> forall entry, joined entry = entry) /\
    (p <> "." -> (exists q, p = (q ++ "/")%string) ->
     forall entry, joined entry = (p ++ entry)%string) /\
    (p <> "." -> (p = "" -> byte_before_empty N <> "/"%char) ->
     ~ (exists q, p = (q ++ "/")%string) ->
     forall entry, joined entry = (p ++ "/" ++ entry)%string).
Proof.
  intros Heof H0 Hok. exists (joined_path N p). split; [| split; [| split]].
  - rewrite scandir_scan_paths. cbn [hd].
    rewrite (scan_paths_clean N file_type (fun _ => es)) by
      (try assumption; intros q [<- | []]; exact Hok).
    cbn. rewrite app_nil_r. reflexivity.
  - intros -> entry. apply joined_path_dot.
  - intros Hdot Hsep entry. apply joined_path_separator; assumption.
  - intros Hdot Hne Hsep entry. apply joined_path_other; assumption.
Qed.


(** C6: in a scan whose directories open and list cleanly, with a filter
    value that is an [int], the result is made of the entries [kept], and
    an entry of a scanned directory is kept if and only if the filter is -1
    or the value of its type is the filter.  With the value of
    [UV_DIRENT_DIR] no regular file is kept, and with the value of
    [UV_DIRENT_FILE] no directory. *)
Theorem scandir_filter_iff (path : list string)
    (entries : string -> list uv_dirent_t) (file_type : Z) (more : list Z)
    (recurse : bool) (w : world N) :
  UV_EOF N <> 0 ->
  is_error N 0 = false ->
  (forall p, In p path -> listing_ok N (fs w) p (entries p)) ->
  - 2 ^ 31 <= file_type < 2 ^ 31 ->
  exists kept : list (string * uv_dirent_t),
    fst (scandir_ N path (file_type :: more) recurse w) =
    Returned (map (fun pe => joined_path N (fst pe) (name (snd pe))) kept) /\
    (forall p e,
        In (p, e) kept <->
        In p path /\ In e (entries p) /\
        (file_type = -1 \/ dirent_type_value (type e) = file_type)) /\
    (file_type = dirent_type_value UV_DIRENT_DIR ->
     forall p e, In (p, e) kept -> type e <> UV_DIRENT_FILE) /\
    (file_type = dirent_type_value UV_DIRENT_FILE ->
     forall p e, In (p, e) kept -> type e <> UV_DIRENT_DIR).
Proof.
  intros Heof H0 Hok Hr.
  set (kept := flat_map (fun p => map (pair p)
                                    (filter (selected file_type) (entries p)))
                        path).
  assert (Hin : forall p e,
             In (p, e) kept <->
             In p path /\ In e (entries p) /\
             (file_type = -1 \/ dirent_type_value (type e) = file_type)).
  { intros p e. unfold kept. rewrite in_flat_map. split.
    - intros [q [Hq Hpe]]. apply in_map_iff in Hpe.
      destruct Hpe as [e' [Heq He']]. injection Heq as -> ->.
      apply filter_In in He'. destruct He' as [He Hs].
      apply selected_iff in Hs; auto.
    - intros [Hp [He Hs]]. exists p. split; [exact Hp |].
      apply in_map. apply filter_In. split; [exact He |].
      apply selected_iff; assumption. }
  exists kept. split; [| split; [exact Hin | split]].
  - rewrite scandir_scan_paths. cbn [hd].
    rewrite (scan_paths_clean N file_type entries) by assumption.
    cbn [fst app]. f_equal. unfold kept.
    rewrite flat_map_concat_map, concat_map, map_map.
    f_equal. apply map_ext. intros p. rewrite map_map. reflexivity.
  - intros Hft p e Hk Ht. apply Hin in Hk. destruct Hk as [_ [_ Hs]].
    rewrite Ht, Hft in Hs. cbn in Hs. lia.
  - intros Hft p e Hk Ht. apply Hin in Hk. destruct Hk as [_ [_ Hs]].
    rewrite Ht, Hft in Hs. cbn in Hs. lia.
Qed.

(** C7: in a scan whose directories open and list cleanly, the list
    returned is the concatenation, in the order of the paths, of what each
    path contributes: the joined paths of its entries that pass the filter,
    in the order of its stream, one for each such entry.  What a path
    contributes is what scanning that path alone returns.  Every path is
    opened once, in order, and the filesystem is not changed. *)
Theorem scandir_returns_flat_concatenation (path : list string)
    (entries : string -> list uv_dirent_t) (file_type : Z) (more : list Z)
    (recurse : bool) (w : world N) :
  UV_EOF N <> 0 ->
  is_error N 0 = false ->
  (forall p, In p path -> listing_ok N (fs w) p (entries p)) ->
  let of_path := fun p =>
    map (fun e => joined_path N p (name e))
        (filter (selected file_type) (entries p)) in
  scandir_ N path (file_type :: more) recurse w =
  (Returned (List.concat (map of_path path)),
   {| fs := fs w; log := log w ++ map call_scandir path |}) /\
  (forall p, In p path ->
     fst (scandir_ N [p] (file_type :: more) recurse w) =
     Returned (of_path p)) /\
  List.length (List.concat (map of_path path)) =
  list_sum (map (fun p => List.length (filter (selected file_type) (entries p)))
                path).
Proof.
  intros Heof H0 Hok of_path. split; [| split].
  - rewrite scandir_scan_paths. cbn [hd].
    rewrite (scan_paths_clean N file_type entries) by assumption.
    reflexivity.
  - intros p Hp. rewrite scandir_scan_paths. cbn [hd].
    rewrite (scan_paths_clean N file_type entries) by
      (try assumption; intros q [<- | []]; apply Hok; exact Hp).
    cbn. rewrite app_nil_r. reflexivity.
  - clear Hok. induction path as [| p rest IH]; cbn.
    + reflexivity.
    + rewrite length_app, IH. unfold of_path. rewrite length_map.
      reflexivity.
Qed.

(** C8: [recurse] is not read: with [true] and with [false] the call ends
    the same way, with the same result, after the same requests. *)
Theorem scandir_ignores_recurse (path : list string) (type : list Z)
    (w : world N) :
  scandir_ N path type true w = scandir_ N path type false w.
Proof. reflexivity. Qed.

(** C10: in a scan whose directories open and list cleanly, a filter value
    (an [int]) that is not -1 and is the type value of none of the entries
    is not rejected: the call returns, and returns the empty list. *)
Theorem scandir_unmatched_filter_is_empty (path : list string)
    (entries : string -> list uv_dirent_t) (file_type : Z) (more : list Z)
    (recurse : bool) (w : world N) :
  UV_EOF N <> 0 ->
  is_error N 0 = false ->
  (forall p, In p path -> listing_ok N (fs w) p (entries p)) ->
  - 2 ^ 31 <= file_type < 2 ^ 31 ->
  file_type <> -1 ->
  (forall p e, In p path -> In e (entries p) ->
               dirent_type_value (type e) <> file_type) ->
  scandir_ N path (file_type :: more) recurse w =
  (Returned [], {| fs := fs w; log := log w ++ map call_scandir path |}).
Proof.
  intros Heof H0 Hok Hr Hne Hnone.
  rewrite scandir_scan_paths. cbn [hd].
  rewrite (scan_paths_clean N file_type entries) by assumption.
  cbn [app]. f_equal. f_equal.
  clear Hok. induction path as [| p rest IH]; cbn.
  - reflexivity.
  - rewrite filter_none.
    + cbn. apply IH. intros q e Hq. apply Hnone. right. exact Hq.
    + intros e He. destruct (selected file_type e) eqn:Hs; [| reflexivity].
      apply selected_iff in Hs; [| exact Hr].
      destruct Hs as [Hs | Hs]; [contradiction |].
      exfalso. apply (Hnone p e (or_introl eq_refl) He Hs).
Qed.

End ScandirProperties.

(** ** The properties at the concrete environment *)

Example scan_with_trailing_separator :
  fst (scandir_ sample ["/tmp/"] [-1] false sample_world) =
  Returned ["/tmp/file"; "/tmp/sub"].
Proof. reflexivity. Qed.

Example scan_without_trailing_separator :
  fst (scandir_ sample ["/tmp"] [-1] false sample_world) =
  Returned ["/tmp/file"; "/tmp/sub"].
Proof. reflexivity. Qed.

Example scan_dot :
  fst (scandir_ sample ["."] [-1] false sample_world) =
  Returned ["file"; "sub"].
Proof. reflexivity. Qed.

Example scan_directories_only :
  fst (scandir_ sample ["/tmp"; "."] [2] true sample_world) =
  Returned ["/tmp/sub"; "sub"].
Proof. reflexivity. Qed.

Example scan_missing_directory :
  scandir_ sample ["/tmp"; "/nowhere"; "."] [-1] false sample_world =
  (Stopped {| cond_message := "Failed to search directory";
              cond_path := "/nowhere";
              cond_description := "no such file or directory" |},
   {| fs := fs sample_world;
      log := [call_scandir "/tmp"; call_scandir "/nowhere"] |}).
Proof. reflexivity. Qed.

Lemma sample_listing_ok (p : string) :
  In p ["/tmp"; "."] -> listing_ok sample (fs sample_world) p sample_entries.
Proof.
  intros [<- | [<- | []]]; split; reflexivity.
Qed.

Lemma scandir_joined_path_rule_witness :
  exists joined : string -> string,
    fst (scandir_ sample ["/tmp/"] [-1] false sample_world) =
    Returned (map (fun e => joined (name e))
                  (filter (selected (-1)) sample_entries)) /\
    ("/tmp/" = "." -> forall entry, joined entry = entry) /\
    ("/tmp/" <> "." -> (exists q, "/tmp/" = (q ++ "/")%string) ->
     forall entry, joined entry = ("/tmp/" ++ entry)%string) /\
    ("/tmp/" <> "." ->
     ("/tmp/" = "" -> byte_before_empty sample <> "/"%char) ->
     ~ (exists q, "/tmp/" = (q ++ "/")%string) ->
     forall entry, joined entry = ("/tmp/" ++ "/" ++ entry)%string).
Proof.
  apply (scandir_joined_path_rule sample "/tmp/" sample_entries (-1) []
           false sample_world).
  - discriminate.
  - reflexivity.
  - split; reflexivity.
Defined.


Lemma scandir_filter_iff_witness :
  exists kept : list (string * uv_dirent_t),
    fst (scandir_ sample ["/tmp"; "."] [2] false sample_world) =
    Returned (map (fun pe => joined_path sample (fst pe) (name (snd pe))) kept) /\
    (forall p e,
        In (p, e) kept <->
        In p ["/tmp"; "."] /\ In e sample_entries /\
        (2 = -1 \/ dirent_type_value (type e) = 2)) /\
    (2 = dirent_type_value UV_DIRENT_DIR ->
     forall p e, In (p, e) kept -> type e <> UV_DIRENT_FILE) /\
    (2 = dirent_type_value UV_DIRENT_FILE ->
     forall p e, In (p, e) kept -> type e <> UV_DIRENT_DIR).
Proof.
  apply (scandir_filter_iff sample ["/tmp"; "."] (fun _ => sample_entries) 2
           [] false sample_world).
  - discriminate.
  - reflexivity.
  - exact sample_listing_ok.
  - lia.
Defined.

Lemma scandir_returns_flat_concatenation_witness :
  scandir_ sample ["/tmp"; "."] [1] false sample_world =
  (Returned (List.concat [["/tmp/file"]; ["file"]]),
   {| fs := fs sample_world;
      log := [call_scandir "/tmp"; call_scandir "."] |}) /\
  (forall p, In p ["/tmp"; "."] ->
     fst (scandir_ sample [p] [1] false sample_world) =
     Returned (map (fun e => joined_path sample p (name e))
                   (filter (selected 1) sample_entries))) /\
  List.length (List.concat [["/tmp/file"]; ["file"]]) = 2%nat.
Proof.
  apply (scandir_returns_flat_concatenation sample ["/tmp"; "."]
           (fun _ => sample_entries) 1 [] false sample_world).
  - discriminate.
  - reflexivity.
  - exact sample_listing_ok.
Defined.

Lemma scandir_unmatched_filter_is_empty_witness :
  scandir_ sample ["/tmp"; "."] [99] false sample_world =
  (Returned [],
   {| fs := fs sample_world;
      log := [call_scandir "/tmp"; call_scandir "."] |}).
Proof.
  apply (scandir_unmatched_filter_is_empty sample ["/tmp"; "."]
           (fun _ => sample_entries) 99 [] false sample_world).
  - discriminate.
  - reflexivity.
  - exact sample_listing_ok.
  - lia.
  - discriminate.
  - intros p e _ [<- | [<- | []]]; discriminate.
Defined.

(** ** More on [mkdir_] *)

Section MkdirMore.

Variable N : Env.

Lemma mkdir_loop_returns_iff (mode : Z) (path : list string) (w : world N) :
  fst (mkdir_loop N mode path w) = Returned tt <->
  mkdir_all_pass N mode path (fs w).
Proof.
  revert w. induction path as [| p rest IH]; intros w.
  - cbn. tauto.
  - destruct (uv_fs_mkdir N p mode (fs w)) as [fd f'] eqn:E.
    rewrite (mkdir_loop_cons N mode p rest w fd f' E). cbv zeta.
    cbn [mkdir_all_pass]. rewrite E. cbn [fst snd].
    destruct (Z.eqb_spec fd (UV_EEXIST N)) as [Heq | Hne].
    + rewrite IH. cbn [fs]. tauto.
    + destruct (is_error N fd) eqn:Herr.
      * cbn [fst]. split; [discriminate |].
        intros [[H | H] _]; [contradiction | discriminate].
      * rewrite IH. cbn [fs]. tauto.
Qed.

(** A loop that is stopped was stopped by the request for one of its
    paths, the first whose result fails. *)
Lemma mkdir_loop_stopped (mode : Z) (path : list string) (w w1 : world N)
    (c : condition) :
  mkdir_loop N mode path w = (Stopped c, w1) ->
  exists (before : list string) (p : string) (after : list string),
    path = before ++ p :: after /\
    mkdir_all_pass N mode before (fs w) /\
    let f :=
      fold_left (fun f q => snd (uv_fs_mkdir N q mode f)) before (fs w) in
    let fd := fst (uv_fs_mkdir N p mode f) in
    fd <> UV_EEXIST N /\
    is_error N fd = true /\
    c = {| cond_message := "Failed to make directory";
           cond_path := p;
           cond_description := uv_strerror N fd |} /\
    log w1 = log w ++ map (fun q => call_mkdir q mode) (before ++ [p]) /\
    fs w1 = snd (uv_fs_mkdir N p mode f).
Proof.
  revert w. induction path as [| p rest IH]; intros w H.
  - discriminate H.
  - destruct (uv_fs_mkdir N p mode (fs w)) as [fd f'] eqn:E.
    rewrite (mkdir_loop_cons N mode p rest w fd f' E) in H. cbv zeta in H.
    assert (Hrest :
      (fd = UV_EEXIST N \/ is_error N fd = false) ->
      mkdir_loop N mode rest
        {| fs := f'; log := log w ++ [call_mkdir p mode] |} = (Stopped c, w1) ->
      exists before p0 after,
        p :: rest = before ++ p0 :: after /\
        mkdir_all_pass N mode before (fs w) /\
        let f :=
          fold_left (fun f q => snd (uv_fs_mkdir N q mode f)) before (fs w) in
        let fd0 := fst (uv_fs_mkdir N p0 mode f) in
        fd0 <> UV_EEXIST N /\ is_error N fd0 = true /\
        c = {| cond_message := "Failed to make directory";
               cond_path := p0;
               cond_description := uv_strerror N fd0 |} /\
        log w1 = log w ++ map (fun q => call_mkdir q mode) (before ++ [p0]) /\
        fs w1 = snd (uv_fs_mkdir N p0 mode f)).
    { intros Hpass K. apply IH in K.
      destruct K as [before [p0 [after [Hp [Hall K]]]]].
      cbv zeta in K. cbn [fs log] in Hall, K.
      destruct K as [Hne [Herr [Hc [Hlog Hfs]]]].
      exists (p :: before), p0, after. cbv zeta.
      cbn [mkdir_all_pass fold_left]. rewrite E. cbn [fst snd].
      rewrite <- app_assoc in Hlog. rewrite Hp.
      repeat split; assumption. }
    destruct (Z.eqb_spec fd (UV_EEXIST N)) as [Heq | Hne]; [auto |].
    destruct (is_error N fd) eqn:Herr; [| auto].
    injection H as <- <-.
    exists [], p, rest. cbv zeta. cbn [fold_left app map mkdir_all_pass].
    rewrite E. cbn [fst snd fs log]. repeat split; auto.
Qed.

(** The loop does not read the log: from two worlds with the same
    filesystem it ends the same way, in the same filesystem. *)
Lemma mkdir_loop_same_fs (mode : Z) (path : list string) (w w' : world N) :
  fs w = fs w' ->
  fst (mkdir_loop N mode path w) = fst (mkdir_loop N mode path w') /\
  fs (snd (mkdir_loop N mode path w)) = fs (snd (mkdir_loop N mode path w')).
Proof.
  revert w w'. induction path as [| p rest IH]; intros w w' Hfs.
  - cbn. auto.
  - destruct (uv_fs_mkdir N p mode (fs w)) as [fd f'] eqn:E.
    rewrite (mkdir_loop_cons N mode p rest w fd f' E).
    rewrite Hfs in E.
    rewrite (mkdir_loop_cons N mode p rest w' fd f' E). cbv zeta.
    destruct (fd =? UV_EEXIST N); [apply IH; reflexivity |].
    destruct (is_error N fd); [cbn; auto | apply IH; reflexivity].
Qed.

(** The mode the loop runs with, when the call gets as far as the loop. *)
Lemma mkdir_runs_loop (path : list string) (mode_str : string) (w : world N) :
  (exists mode : Z,
      mkdir_ N path mode_str w =
      mkdir_loop N mode path
        {| fs := fs w; log := log w ++ [call_setmode mode_str] |} /\
      forall path' w',
        mkdir_ N path' mode_str w' =
        mkdir_loop N mode path'
          {| fs := fs w'; log := log w' ++ [call_setmode mode_str] |}) \/
  (setmode N mode_str = None /\ getmode_null N 0 = None /\
   forall path' w',
     mkdir_ N path' mode_str w' =
     (Fault, {| fs := fs w'; log := log w' ++ [call_setmode mode_str] |})).
Proof.
  destruct (setmode N mode_str) as [set |] eqn:E.
  - left. exists (parsed_mode N set). split.
    + apply mkdir_parsed. exact E.
    + intros path' w'. apply mkdir_parsed. exact E.
  - destruct (getmode_null N 0) as [mode |] eqn:G.
    + left. exists mode. split.
      * rewrite (mkdir_not_parsed N path mode_str w E). cbv zeta.
        rewrite G. reflexivity.
      * intros path' w'. rewrite (mkdir_not_parsed N path' mode_str w' E).
        cbv zeta. rewrite G. reflexivity.
    + right. repeat split; auto.
      intros path' w'. rewrite (mkdir_not_parsed N path' mode_str w' E).
      cbv zeta. rewrite G. reflexivity.
Qed.

(** X1: when the mode string parses and [mkdir_] returns, it has called
    [setmode] once and then requested every path exactly once, in the order
    of [path], each with the mode parsed from the string; the filesystem is
    the one these requests left, one after the other. *)
Theorem mkdir_returned_requests (path : list string) (mode_str : string)
    (set : bitcmd N) (w w1 : world N) :
  setmode N mode_str = Some set ->
  mkdir_ N path mode_str w = (Returned tt, w1) ->
  log w1 =
  log w ++ call_setmode mode_str
        :: map (fun p => call_mkdir p (getmode N set 0)) path /\
  fs w1 =
  fold_left (fun f p => snd (uv_fs_mkdir N p (getmode N set 0) f)) path (fs w).
Proof.
  intros Hs H. rewrite (mkdir_parsed N path mode_str set w Hs) in H.
  apply mkdir_loop_returned in H. cbn [fs log] in H. destruct H as [L F].
  split; [| exact F]. rewrite L, <- app_assoc. reflexivity.
Qed.

(** X2: when the mode string parses, [mkdir_] returns if and only if every
    request, made in order on the filesystem the earlier ones left, reports
    [UV_EEXIST] or a result on which [stop_for_error] does not raise. *)
Theorem mkdir_returns_iff_all_pass (path : list string) (mode_str : string)
    (set : bitcmd N) (w : world N) :
  setmode N mode_str = Some set ->
  fst (mkdir_ N path mode_str w) = Returned tt <->
  mkdir_all_pass N (getmode N set 0) path (fs w).
Proof.
  intros Hs. rewrite (mkdir_parsed N path mode_str set w Hs).
  rewrite mkdir_loop_returns_iff. reflexivity.
Qed.

(** X3: when the mode string parses, every condition [mkdir_] raises is
    the one of the first path of [path] whose request fails: the requests
    for the paths before it all passed, the request for that path, made on
    the filesystem they left, gave a failing result [fd] other than
    [UV_EEXIST], and the condition carries "Failed to make directory", that
    path and libuv's description of [fd].  The requests made are those for
    the paths up to it, and the filesystem is the one its request left. *)
Theorem mkdir_stopped_only_by_failed_request (path : list string)
    (mode_str : string) (set : bitcmd N) (w w1 : world N) (c : condition) :
  setmode N mode_str = Some set ->
  mkdir_ N path mode_str w = (Stopped c, w1) ->
  let mode := getmode N set 0 in
  exists (before : list string) (p : string) (after : list string),
    path = before ++ p :: after /\
    mkdir_all_pass N mode before (fs w) /\
    let f :=
      fold_left (fun f q => snd (uv_fs_mkdir N q mode f)) before (fs w) in
    let fd := fst (uv_fs_mkdir N p mode f) in
    fd <> UV_EEXIST N /\
    is_error N fd = true /\
    c = {| cond_message := "Failed to make directory";
           cond_path := p;
           cond_description := uv_strerror N fd |} /\
    log w1 =
    log w ++ call_setmode mode_str
          :: map (fun q => call_mkdir q mode) (before ++ [p]) /\
    fs w1 = snd (uv_fs_mkdir N p mode f).
Proof.
  intros Hs H mode. rewrite (mkdir_parsed N path mode_str set w Hs) in H.
  apply mkdir_loop_stopped in H.
  destruct H as [before [p [after [Hp [Hall H]]]]]. cbv zeta in H.
  cbn [fs log] in Hall, H. destruct H as [Hne [Herr [Hc [Hlog Hfs]]]].
  exists before, p, after. cbv zeta.
  rewrite <- app_assoc in Hlog. repeat split; assumption.
Qed.

(** X5: one call on [xs ++ ys] and two calls, on [xs] then on [ys], come to
    the same: when the call on [xs] returns, the call on [xs ++ ys] ends as
    the call on [ys] made afterwards does, and in the same filesystem. *)
Theorem mkdir_app_as_two_calls (xs ys : list string) (mode_str : string)
    (w w1 : world N) :
  mkdir_ N xs mode_str w = (Returned tt, w1) ->
  fst (mkdir_ N (xs ++ ys) mode_str w) = fst (mkdir_ N ys mode_str w1) /\
  fs (snd (mkdir_ N (xs ++ ys) mode_str w)) =
  fs (snd (mkdir_ N ys mode_str w1)).
Proof.
  intros H.
  destruct (mkdir_runs_loop xs mode_str w)
    as [[mode [Hrun Hall]] | [_ [_ Hfault]]].
  - rewrite Hrun in H. rewrite !Hall. rewrite mkdir_loop_app.
    rewrite (bind_returned N unit unit _
               (fun _ => mkdir_loop N mode ys) _ w1 tt H).
    apply mkdir_loop_same_fs. reflexivity.
  - rewrite Hfault in H. discriminate H.
Qed.

End MkdirMore.

Lemma mkdir_returned_requests_witness :
  log (snd (mkdir_ sample ["/a"; "/tmp"] "755" sample_world)) =
  log sample_world ++ call_setmode "755"
    :: map (fun p => call_mkdir p (getmode sample 493 0)) ["/a"; "/tmp"] /\
  fs (snd (mkdir_ sample ["/a"; "/tmp"] "755" sample_world)) =
  fold_left (fun f p => snd (uv_fs_mkdir sample p (getmode sample 493 0) f))
            ["/a"; "/tmp"] (fs sample_world).
Proof.
  apply (mkdir_returned_requests sample ["/a"; "/tmp"] "755" 493 sample_world).
  - reflexivity.
  - reflexivity.
Defined.

Lemma mkdir_returns_iff_all_pass_witness :
  fst (mkdir_ sample ["/a"; "/tmp"] "755" sample_world) = Returned tt <->
  mkdir_all_pass sample (getmode sample 493 0) ["/a"; "/tmp"] (fs sample_world).
Proof.
  apply (mkdir_returns_iff_all_pass sample ["/a"; "/tmp"] "755" 493
           sample_world).
  reflexivity.
Defined.

Lemma mkdir_stopped_only_by_failed_request_witness :
  exists (before : list string) (p : string) (after : list string),
    ["/a"; ""; "/b"] = before ++ p :: after /\
    mkdir_all_pass sample 493 before (fs sample_world) /\
    let f :=
      fold_left (fun f q => snd (uv_fs_mkdir sample q 493 f)) before
                (fs sample_world) in
    let fd := fst (uv_fs_mkdir sample p 493 f) in
    fd <> UV_EEXIST sample /\
    is_error sample fd = true /\
    {| cond_message := "Failed to make directory";
       cond_path := "";
       cond_description := "no such file or directory" |} =
    {| cond_message := "Failed to make directory";
       cond_path := p;
       cond_description := uv_strerror sample fd |} /\
    [call_setmode "755"; call_mkdir "/a" 493; call_mkdir "" 493] =
    log sample_world ++ call_setmode "755"
      :: map (fun q => call_mkdir q 493) (before ++ [p]) /\
    (["/a"; "/tmp"; "/tmp/"; "."] : FS sample) =
    snd (uv_fs_mkdir sample p 493 f).
Proof.
  apply (mkdir_stopped_only_by_failed_request sample ["/a"; ""; "/b"] "755"
           493 sample_world
           {| fs := ["/a"; "/tmp"; "/tmp/"; "."] : FS sample;
              log := [call_setmode "755"; call_mkdir "/a" 493;
                      call_mkdir "" 493] |}).
  - reflexivity.
  - reflexivity.
Defined.

Lemma mkdir_app_as_two_calls_witness :
  fst (mkdir_ sample (["/a"] ++ ["/b"; "/tmp"]) "700" sample_world) =
  fst (mkdir_ sample ["/b"; "/tmp"] "700"
         {| fs := ["/a"; "/tmp"; "/tmp/"; "."] : FS sample;
            log := [call_setmode "700"; call_mkdir "/a" 448] |}) /\
  fs (snd (mkdir_ sample (["/a"] ++ ["/b"; "/tmp"]) "700" sample_world)) =
  fs (snd (mkdir_ sample ["/b"; "/tmp"] "700"
             {| fs := ["/a"; "/tmp"; "/tmp/"; "."] : FS sample;
                log := [call_setmode "700"; call_mkdir "/a" 448] |})).
Proof.
  apply (mkdir_app_as_two_calls sample ["/a"] ["/b"; "/tmp"] "700"
           sample_world).
  reflexivity.
Defined.

(** ** More on [scandir_] *)

Section ScandirMore.

Variable N : Env.

Lemma bind_ext_l (A B : Type) (m m' : M N A) (k : A -> M N B) (w : world N) :
  m w = m' w -> bind m k w = bind m' k w.
Proof.
  intros H. unfold bind. rewrite H. reflexivity.
Qed.

(** The [while] loop leaves the world as it is. *)
Lemma scandir_while_world (p : string) (file_type : Z) (req : uv_fs_t)
    (e : option uv_dirent_t) (files : list string) (w : world N) :
  snd (scandir_while N p file_type req e files w) = w.
Proof.
  revert e files. induction req as [| r req IH]; intros e files.
  - reflexivity.
  - destruct (Z.eqb_spec (next_res_of r) (UV_EOF N)) as [Heq | Hne].
    + cbn [scandir_while]. apply Z.eqb_eq in Heq. rewrite Heq. reflexivity.
    + rewrite scandir_while_cons by assumption.
      destruct (dirent_after r e) as [e_now |]; [| reflexivity]. cbv zeta.
      destruct (is_error N (next_res_of r)); [reflexivity | apply IH].
Qed.

(** A loop that is stopped was stopped at a step of the request that gave a
    failing code, after steps that passed; [e] was written by then. *)
Lemma scandir_while_stopped (p : string) (file_type : Z) (req : uv_fs_t)
    (e : option uv_dirent_t) (files : list string) (w w1 : world N)
    (c : condition) :
  scandir_while N p file_type req e files w = (Stopped c, w1) ->
  exists (before : uv_fs_t) (r : scandir_next) (after : uv_fs_t),
    req = before ++ r :: after /\
    (e = None -> first_is_entry req) /\
    Forall (step_passes N) before /\
    next_res_of r <> UV_EOF N /\
    is_error N (next_res_of r) = true /\
    c = {| cond_message := "Failed to search directory";
           cond_path := p;
           cond_description := uv_strerror N (next_res_of r) |}.
Proof.
  revert e files. induction req as [| r req IH]; intros e files H.
  - discriminate H.
  - destruct (Z.eqb_spec (next_res_of r) (UV_EOF N)) as [Heq | Hne].
    + cbn [scandir_while] in H. apply Z.eqb_eq in Heq. rewrite Heq in H.
      discriminate H.
    + rewrite scandir_while_cons in H by assumption.
      destruct (dirent_after r e) as [e_now |] eqn:Ee; [| discriminate H].
      assert (Hfirst : e = None -> first_is_entry (r :: req)).
      { intros ->. destruct r; [exact I | discriminate Ee]. }
      cbv zeta in H. destruct (is_error N (next_res_of r)) eqn:Herr.
      * injection H as <- _. exists [], r, req. repeat split; auto.
      * apply IH in H.
        destruct H as [before [r' [after [Hreq [_ [Hpass [Hne' [Herr' Hc]]]]]]]].
        exists (r :: before), r', after. rewrite Hreq in *.
        repeat split; auto. constructor; [split; assumption | exact Hpass].
Qed.

(** What was in [files] when the loop started stays in front. *)
Lemma scandir_while_prefix (p : string) (file_type : Z) (req : uv_fs_t)
    (e : option uv_dirent_t) (pre files : list string) (w : world N) :
  scandir_while N p file_type req e (pre ++ files) w =
  bind (scandir_while N p file_type req e files)
       (fun r => ret (pre ++ r)) w.
Proof.
  revert e files. induction req as [| r req IH]; intros e files.
  - reflexivity.
  - destruct (Z.eqb_spec (next_res_of r) (UV_EOF N)) as [Heq | Hne].
    + cbn [scandir_while]. apply Z.eqb_eq in Heq. rewrite Heq. reflexivity.
    + unfold bind at 1.
      rewrite !scandir_while_cons by assumption.
      destruct (dirent_after r e) as [e_now |]; [| reflexivity]. cbv zeta.
      destruct (is_error N (next_res_of r)); [reflexivity |].
      destruct (selected file_type e_now).
      * rewrite <- app_assoc. rewrite IH. reflexivity.
      * rewrite IH. reflexivity.
Qed.

Lemma scan_paths_prefix (file_type : Z) (path : list string)
    (pre files : list string) (w : world N) :
  scan_paths N file_type path (pre ++ files) w =
  bind (scan_paths N file_type path files) (fun r => ret (pre ++ r)) w.
Proof.
  revert files w. induction path as [| p rest IH]; intros files w.
  - reflexivity.
  - cbn [scan_paths]. rewrite bind_assoc.
    apply bind_ext; intros res_req w1.
    rewrite bind_assoc. apply bind_ext; intros _ w2.
    rewrite bind_assoc.
    rewrite (bind_ext_l _ _ _ _ _ _
               (scandir_while_prefix p file_type (snd res_req)
                  None pre files w2)).
    rewrite bind_assoc. apply bind_ext; intros files' w3.
    unfold bind at 1, ret at 1. apply IH.
Qed.

Lemma world_eta (w : world N) : {| fs := fs w; log := log w ++ [] |} = w.
Proof. destruct w. cbn. rewrite app_nil_r. reflexivity. Qed.

(** How the [for] loop ends, and what it has requested by then. *)
Lemma scan_paths_ends (file_type : Z) (path : list string)
    (files : list string) (w : world N) :
  match scan_paths N file_type path files w with
  | (Returned _, w1) =>
      w1 = {| fs := fs w; log := log w ++ map call_scandir path |}
  | (Stopped c, w1) =>
      exists (before : list string) (p : string) (after : list string)
             (err : Z) (files1 : list string),
        path = before ++ p :: after /\
        scan_paths N file_type before files w =
        (Returned files1,
         {| fs := fs w; log := log w ++ map call_scandir before |}) /\
        scan_failure N (fst (uv_fs_scandir N p (fs w)))
                       (snd (uv_fs_scandir N p (fs w))) err /\
        c = {| cond_message := "Failed to search directory";
               cond_path := p;
               cond_description := uv_strerror N err |} /\
        w1 = {| fs := fs w;
                log := log w ++ map call_scandir (before ++ [p]) |}
  | (Fault, _) => True
  end.
Proof.
  revert files w. induction path as [| p rest IH]; intros files w.
  - cbn. symmetry. apply world_eta.
  - rewrite scan_paths_cons. cbv zeta.
    destruct (is_error N (fst (uv_fs_scandir N p (fs w)))) eqn:Herr.
    + exists [], p, rest, (fst (uv_fs_scandir N p (fs w))), files.
      cbn [app map scan_paths]. unfold ret. rewrite world_eta.
      repeat split. apply open_fails. exact Herr.
    + unfold bind.
      pose proof (scandir_while_world p file_type
                    (snd (uv_fs_scandir N p (fs w))) None files
                    {| fs := fs w; log := log w ++ [call_scandir p] |})
        as Hw.
      destruct (scandir_while N p file_type (snd (uv_fs_scandir N p (fs w)))
                  None files
                  {| fs := fs w; log := log w ++ [call_scandir p] |})
        as [[files' | c |] w'] eqn:E; cbn [snd] in Hw; subst w'.
      * specialize (IH files'
                      {| fs := fs w; log := log w ++ [call_scandir p] |}).
        destruct (scan_paths N file_type rest files'
                    {| fs := fs w; log := log w ++ [call_scandir p] |})
          as [[r | c |] w2].
        -- rewrite IH. cbn [fs log map]. rewrite <- app_assoc. reflexivity.
        -- destruct IH as [before [q [after [err [files1 IH]]]]].
           cbn [fs log] in IH.
           destruct IH as [Hp [Hbefore [Hfail [Hc Hw1]]]].
           exists (p :: before), q, after, err, files1.
           split; [rewrite Hp; reflexivity |].
           split.
           { rewrite scan_paths_cons. cbv zeta. rewrite Herr.
             unfold bind. rewrite E, Hbefore.
             cbn [map]. rewrite <- app_assoc. reflexivity. }
           split; [exact Hfail |]. split; [exact Hc |].
           rewrite Hw1. cbn [app map]. rewrite <- app_assoc. reflexivity.
        -- exact I.
      * apply scandir_while_stopped in E.
        destruct E as [before [r [after [Hreq [Hfirst [Hpass [Hne [He Hc]]]]]]]].
        exists [], p, rest, (next_res_of r), files.
        cbn [app map scan_paths]. unfold ret. rewrite world_eta.
        repeat split; auto.
        rewrite Hreq. apply step_fails; auto.
        rewrite <- Hreq. apply Hfirst. reflexivity.
      * exact I.
Qed.

(** X6: when [scandir_] returns it has opened every path exactly once, in
    the order of [path], and requested nothing else: no directory is
    created and nothing is renamed.  This holds whatever the directory
    streams give. *)
Theorem scandir_returned_requests (path : list string) (type : list Z)
    (recurse : bool) (w w1 : world N) (files : list string) :
  scandir_ N path type recurse w = (Returned files, w1) ->
  log w1 = log w ++ map call_scandir path /\ fs w1 = fs w.
Proof.
  rewrite scandir_scan_paths. intros H.
  pose proof (scan_paths_ends (hd (int_past_end N) type) path [] w) as He.
  rewrite H in He. rewrite He. auto.
Qed.

(** X7: every condition [scandir_] raises is the one of the first path of
    [path] whose scan fails: the scan of the paths before it returned, and
    for that path [uv_fs_scandir], or a step of the stream it opened, gave
    the failing result [err]; the condition carries "Failed to search
    directory", that path and libuv's description of [err].  The paths up
    to it were opened, in order, and none after it. *)
Theorem scandir_stopped_only_by_failed_scan (path : list string)
    (type : list Z) (recurse : bool) (w w1 : world N) (c : condition) :
  scandir_ N path type recurse w = (Stopped c, w1) ->
  exists (before : list string) (p : string) (after : list string) (err : Z)
         (files0 : list string) (w0 : world N),
    path = before ++ p :: after /\
    scandir_ N before type recurse w = (Returned files0, w0) /\
    log w0 = log w ++ map call_scandir before /\
    scan_failure N (fst (uv_fs_scandir N p (fs w0)))
                   (snd (uv_fs_scandir N p (fs w0))) err /\
    c = {| cond_message := "Failed to search directory";
           cond_path := p;
           cond_description := uv_strerror N err |} /\
    w1 = {| fs := fs w0; log := log w0 ++ [call_scandir p] |}.
Proof.
  rewrite scandir_scan_paths. intros H.
  pose proof (scan_paths_ends (hd (int_past_end N) type) path [] w) as He.
  rewrite H in He.
  destruct He as [before [p [after [err [files0 [Hp [Hb [Hf [Hc Hw]]]]]]]]].
  exists before, p, after, err, files0,
         {| fs := fs w; log := log w ++ map call_scandir before |}.
  rewrite scandir_scan_paths. cbn [fs log].
  repeat split; try assumption.
  rewrite Hw, map_app, app_assoc. reflexivity.
Qed.

(** X8: scanning [xs ++ ys] in one call comes to scanning [xs], then [ys]:
    when the call on [xs] returns [files1], the call on [xs ++ ys] returns
    [files1] followed by what the call on [ys] made afterwards returns, and
    is stopped by the same condition when that call is stopped. *)
Theorem scandir_app_as_two_calls (xs ys : list string) (type : list Z)
    (recurse : bool) (w w1 : world N) (files1 : list string) :
  scandir_ N xs type recurse w = (Returned files1, w1) ->
  (forall files2 w2,
      scandir_ N ys type recurse w1 = (Returned files2, w2) ->
      scandir_ N (xs ++ ys) type recurse w = (Returned (files1 ++ files2), w2)) /\
  (forall c w2,
      scandir_ N ys type recurse w1 = (Stopped c, w2) ->
      scandir_ N (xs ++ ys) type recurse w = (Stopped c, w2)).
Proof.
  rewrite !scandir_scan_paths. intros H.
  assert (K : scan_paths N (hd (int_past_end N) type) (xs ++ ys) [] w =
              bind (scan_paths N (hd (int_past_end N) type) ys [])
                   (fun r => ret (files1 ++ r)) w1).
  { rewrite scan_paths_app, (bind_returned N _ _ _ _ w w1 files1 H).
    rewrite <- (app_nil_r files1) at 1. apply scan_paths_prefix. }
  split.
  - intros files2 w2 H2.
    rewrite K. unfold bind. rewrite H2. reflexivity.
  - intros c w2 H2.
    rewrite K. unfold bind. rewrite H2. reflexivity.
Qed.

End ScandirMore.

Example scan_first_step_gives_code :
  fst (scandir_ sample ["/tmp"; "/unread"] [-1] false sample_world) = Fault.
Proof. reflexivity. Qed.

Lemma scandir_returned_requests_witness :
  log {| fs := fs sample_world;
         log := [call_scandir "/tmp"; call_scandir "."] |} =
  log sample_world ++ map call_scandir ["/tmp"; "."] /\
  fs {| fs := fs sample_world;
        log := [call_scandir "/tmp"; call_scandir "."] |} =
  fs sample_world.
Proof.
  apply (scandir_returned_requests sample ["/tmp"; "."] [2] false sample_world
           {| fs := fs sample_world;
              log := [call_scandir "/tmp"; call_scandir "."] |}
           ["/tmp/sub"; "sub"]).
  reflexivity.
Defined.

Lemma scandir_stopped_only_by_failed_scan_witness :
  exists (before : list string) (p : string) (after : list string) (err : Z)
         (files0 : list string) (w0 : world sample),
    ["/tmp"; "/nowhere"; "."] = before ++ p :: after /\
    scandir_ sample before [-1] false sample_world = (Returned files0, w0) /\
    log w0 = log sample_world ++ map call_scandir before /\
    scan_failure sample (fst (uv_fs_scandir sample p (fs w0)))
                        (snd (uv_fs_scandir sample p (fs w0))) err /\
    {| cond_message := "Failed to search directory";
       cond_path := "/nowhere";
       cond_description := "no such file or directory" |} =
    {| cond_message := "Failed to search directory";
       cond_path := p;
       cond_description := uv_strerror sample err |} /\
    {| fs := fs sample_world;
       log := [call_scandir "/tmp"; call_scandir "/nowhere"] |} =
    {| fs := fs w0; log := log w0 ++ [call_scandir p] |}.
Proof.
  apply (scandir_stopped_only_by_failed_scan sample
           ["/tmp"; "/nowhere"; "."] [-1] false sample_world
           {| fs := fs sample_world;
              log := [call_scandir "/tmp"; call_scandir "/nowhere"] |}).
  reflexivity.
Defined.

Lemma scandir_app_as_two_calls_witness :
  (forall files2 w2,
      scandir_ sample ["."; "/broken"] [1] false
        {| fs := fs sample_world; log := [call_scandir "/tmp"] |} =
      (Returned files2, w2) ->
      scandir_ sample (["/tmp"] ++ ["."; "/broken"]) [1] false sample_world =
      (Returned (["/tmp/file"] ++ files2), w2)) /\
  (forall c w2,
      scandir_ sample ["."; "/broken"] [1] false
        {| fs := fs sample_world; log := [call_scandir "/tmp"] |} =
      (Stopped c, w2) ->
      scandir_ sample (["/tmp"] ++ ["."; "/broken"]) [1] false sample_world =
      (Stopped c, w2)).
Proof.
  apply (scandir_app_as_two_calls sample ["/tmp"] ["."; "/broken"] [1] false
           sample_world
           {| fs := fs sample_world; log := [call_scandir "/tmp"] |}
           ["/tmp/file"]).
  reflexivity.
Defined.

(** *** The list [out], the joined paths and the type filters *)

Section ScandirResults.

Variable N : Env.

Lemma SET_VECTOR_ELT_app (A : Type) (done : list A) (x y : A) (tl : list A) :
  SET_VECTOR_ELT (done ++ x :: tl) (List.length done) y = done ++ y :: tl.
Proof.
  induction done as [| d done IH]; cbn.
  - reflexivity.
  - rewrite IH. reflexivity.
Qed.

Lemma scandir_for_clean (file_type : Z) (entries : string -> list uv_dirent_t)
    (rest : list string) (done : list (option (list string)))
    (files : list string) (w : world N) :
  UV_EOF N <> 0 -> is_error N 0 = false ->
  (forall p, In p rest -> listing_ok N (fs w) p (entries p)) ->
  let of_path := fun p =>
    map (fun e => joined_path N p (name e))
        (filter (selected file_type) (entries p)) in
  fst (scandir_for N file_type rest (List.length done)
         (done ++ repeat None (List.length rest)) files w) =
  Returned
    (done ++
     map (fun k =>
            Some (files ++ List.concat (map of_path (firstn (S k) rest))))
         (seq 0 (List.length rest)),
     files ++ List.concat (map of_path rest)).
Proof.
  intros Heof H0 Hok of_path. revert done files w Hok.
  induction rest as [| p rest IH]; intros done files w Hok.
  - cbn. rewrite !app_nil_r. reflexivity.
  - destruct (Hok p (or_introl eq_refl)) as [Hres Hreq].
    cbn [scandir_for List.length repeat]. unfold bind at 1, do_uv_fs_scandir.
    unfold bind at 1, stop_for_error. cbn [fst snd]. rewrite Hres, Hreq.
    unfold ret at 1. unfold bind at 1.
    rewrite scandir_while_entries by assumption.
    rewrite SET_VECTOR_ELT_app. fold (of_path p).
    replace (done ++ Some (files ++ of_path p) :: repeat None (List.length rest))
      with ((done ++ [Some (files ++ of_path p)])
              ++ repeat None (List.length rest))
      by (rewrite <- app_assoc; reflexivity).
    replace (S (List.length done))
      with (List.length (done ++ [Some (files ++ of_path p)]))
      by (rewrite length_app; cbn; lia).
    rewrite IH by (intros q Hq; cbn [fs]; apply Hok; right; exact Hq).
    f_equal. f_equal.
    + rewrite <- app_assoc. cbn [app seq map firstn List.concat].
      rewrite app_nil_r. f_equal. f_equal.
      rewrite <- seq_shift, map_map. apply map_ext. intros k.
      cbn [firstn map List.concat]. rewrite <- app_assoc. reflexivity.
    + cbn [map List.concat]. rewrite <- app_assoc. reflexivity.
Qed.

(** X9: the list [out] does not hold one bucket per path: [files] is never
    emptied, so in a scan whose directories open and list cleanly the
    element [k] of [out] is set to everything collected for the paths 0 to
    [k], and every element of [out] is set. *)
Theorem scandir_out_is_cumulative (path : list string)
    (entries : string -> list uv_dirent_t) (file_type : Z) (w : world N) :
  UV_EOF N <> 0 ->
  is_error N 0 = false ->
  (forall p, In p path -> listing_ok N (fs w) p (entries p)) ->
  let of_path := fun p =>
    map (fun e => joined_path N p (name e))
        (filter (selected file_type) (entries p)) in
  fst (scandir_for N file_type path 0 (repeat None (List.length path)) [] w) =
  Returned
    (map (fun k => Some (List.concat (map of_path (firstn (S k) path))))
         (seq 0 (List.length path)),
     List.concat (map of_path path)).
Proof.
  intros Heof H0 Hok of_path.
  exact (scandir_for_clean file_type entries path [] [] w Heof H0 Hok).
Qed.

Lemma append_cancel_l (p a b : string) :
  (p ++ a)%string = (p ++ b)%string -> a = b.
Proof.
  induction p as [| c p IH]; cbn; intros H.
  - exact H.
  - injection H as H. apply IH. exact H.
Qed.

Lemma append_assoc (p q r : string) :
  ((p ++ q) ++ r)%string = (p ++ (q ++ r))%string.
Proof.
  induction p as [| c p IH]; cbn.
  - reflexivity.
  - rewrite IH. reflexivity.
Qed.

(** X10: two entries of a directory with different names are given
    different paths, whatever the directory path is. *)
Theorem joined_path_distinct (p a b : string) :
  a <> b -> joined_path N p a <> joined_path N p b.
Proof.
  intros Hab H. apply Hab. unfold joined_path in H.
  destruct (String.eqb p "."); [exact H |].
  destruct (Ascii.eqb (last_char (byte_before_empty N) p) "/").
  - apply append_cancel_l in H. exact H.
  - apply append_cancel_l in H. injection H as H. exact H.
Qed.

Lemma joined_path_with_separator (p entry : string) :
  p <> "" -> p <> "." -> ~ (exists q, p = (q ++ "/")%string) ->
  joined_path N (p ++ "/")%string entry = joined_path N p entry.
Proof.
  intros Hne Hdot Hsep.
  rewrite joined_path_separator.
  - rewrite joined_path_other by (auto; intros E; contradiction).
    apply append_assoc.
  - destruct p as [| c [| c' p']]; cbn; discriminate.
  - exists p. reflexivity.
Qed.

(** X11: a separator at the end of the directory path changes nothing:
    for a non-empty [p] other than "." that does not end with '/', scanning
    [p/] returns the same paths as scanning [p], when both open on the same
    entries. *)
Theorem scandir_trailing_separator (p : string) (es : list uv_dirent_t)
    (file_type : Z) (more : list Z) (recurse : bool) (w : world N) :
  UV_EOF N <> 0 ->
  is_error N 0 = false ->
  p <> "" -> p <> "." -> ~ (exists q, p = (q ++ "/")%string) ->
  listing_ok N (fs w) p es ->
  listing_ok N (fs w) (p ++ "/")%string es ->
  fst (scandir_ N [(p ++ "/")%string] (file_type :: more) recurse w) =
  fst (scandir_ N [p] (file_type :: more) recurse w).
Proof.
  intros Heof H0 Hne Hdot Hsep Hp Hps.
  rewrite !scandir_scan_paths. cbn [hd].
  rewrite (scan_paths_clean N file_type (fun _ => es)) by
    (try assumption; intros q [<- | []]; exact Hps).
  rewrite (scan_paths_clean N file_type (fun _ => es)) by
    (try assumption; intros q [<- | []]; exact Hp).
  cbn [fst map List.concat]. f_equal. f_equal. f_equal.
  apply map_ext. intros e. apply joined_path_with_separator; assumption.
Qed.

Lemma selected_no_filter (e : uv_dirent_t) : selected (-1) e = true.
Proof. reflexivity. Qed.

Lemma selected_type_value (t : uv_dirent_type_t) (nm : string)
    (ty : uv_dirent_type_t) :
  selected (dirent_type_value t) {| name := nm; type := ty |} =
  (dirent_type_value t =? dirent_type_value ty).
Proof. destruct t, ty; reflexivity. Qed.

Lemma filter_types_partition (es : list uv_dirent_t) :
  List.length (filter (selected (-1)) es) =
  (List.length (filter (selected (dirent_type_value UV_DIRENT_UNKNOWN)) es) +
   List.length (filter (selected (dirent_type_value UV_DIRENT_FILE)) es) +
   List.length (filter (selected (dirent_type_value UV_DIRENT_DIR)) es) +
   List.length (filter (selected (dirent_type_value UV_DIRENT_LINK)) es) +
   List.length (filter (selected (dirent_type_value UV_DIRENT_FIFO)) es) +
   List.length (filter (selected (dirent_type_value UV_DIRENT_SOCKET)) es) +
   List.length (filter (selected (dirent_type_value UV_DIRENT_CHAR)) es) +
   List.length (filter (selected (dirent_type_value UV_DIRENT_BLOCK)) es))%nat.
Proof.
  induction es as [| [nm ty] es IH].
  - reflexivity.
  - cbn [filter].
    rewrite selected_no_filter, !selected_type_value.
    cbn [dirent_type_value] in IH.
    destruct ty; cbn -[filter selected]; lia.
Qed.

(** X12: the type filters split the unfiltered result.  In a scan whose
    directories open and list cleanly, the call with filter -1 returns as
    many paths as the calls with the eight values of [uv_dirent_type_t]
    return together: every entry passes exactly one of them. *)
Theorem scandir_type_filters_partition (path : list string)
    (entries : string -> list uv_dirent_t) (more : list Z) (recurse : bool)
    (w : world N) :
  UV_EOF N <> 0 ->
  is_error N 0 = false ->
  (forall p, In p path -> listing_ok N (fs w) p (entries p)) ->
  exists (all : list string) (of_type : uv_dirent_type_t -> list string),
    fst (scandir_ N path (-1 :: more) recurse w) = Returned all /\
    (forall t,
        fst (scandir_ N path (dirent_type_value t :: more) recurse w) =
        Returned (of_type t)) /\
    List.length all =
    (List.length (of_type UV_DIRENT_UNKNOWN) +
     List.length (of_type UV_DIRENT_FILE) +
     List.length (of_type UV_DIRENT_DIR) +
     List.length (of_type UV_DIRENT_LINK) +
     List.length (of_type UV_DIRENT_FIFO) +
     List.length (of_type UV_DIRENT_SOCKET) +
     List.length (of_type UV_DIRENT_CHAR) +
     List.length (of_type UV_DIRENT_BLOCK))%nat.
Proof.
  intros Heof H0 Hok.
  set (of_filter := fun ft =>
         List.concat
           (map (fun p => map (fun e => joined_path N p (name e))
                              (filter (selected ft) (entries p))) path)).
  exists (of_filter (-1)), (fun t => of_filter (dirent_type_value t)).
  split; [| split].
  - rewrite scandir_scan_paths. cbn [hd].
    rewrite (scan_paths_clean N (-1) entries) by assumption. reflexivity.
  - intros t. rewrite scandir_scan_paths. cbn [hd].
    rewrite (scan_paths_clean N _ entries) by assumption. reflexivity.
  - unfold of_filter. clear Hok of_filter.
    induction path as [| p rest IH].
    + reflexivity.
    + cbn [map List.concat]. rewrite !length_app, !length_map.
      rewrite (filter_types_partition (entries p)). lia.
Qed.

End ScandirResults.

Lemma scandir_out_is_cumulative_witness :
  fst (scandir_for sample 1 ["/tmp"; "."] 0 (repeat None 2) [] sample_world) =
  Returned
    ([Some ["/tmp/file"]; Some ["/tmp/file"; "file"]], ["/tmp/file"; "file"]).
Proof.
  refine (scandir_out_is_cumulative sample ["/tmp"; "."]
            (fun _ => sample_entries) 1 sample_world _ _ _).
  - discriminate.
  - reflexivity.
  - exact sample_listing_ok.
Defined.

Lemma joined_path_distinct_witness :
  joined_path sample "/tmp" "file" <> joined_path sample "/tmp" "sub".
Proof.
  apply (joined_path_distinct sample "/tmp" "file" "sub"). discriminate.
Defined.

Lemma scandir_trailing_separator_witness :
  fst (scandir_ sample [("/tmp" ++ "/")%string] [-1] false sample_world) =
  fst (scandir_ sample ["/tmp"] [-1] false sample_world).
Proof.
  apply (scandir_trailing_separator sample "/tmp" sample_entries (-1) [] false
           sample_world).
  - discriminate.
  - reflexivity.
  - discriminate.
  - discriminate.
  - intros [q H]. apply (f_equal (last_char "000"%char)) in H.
    rewrite last_char_append in H. discriminate H.
  - split; reflexivity.
  - split; reflexivity.
Defined.

Lemma scandir_type_filters_partition_witness :
  exists (all : list string) (of_type : uv_dirent_type_t -> list string),
    fst (scandir_ sample ["/tmp"; "."] [-1] false sample_world) =
    Returned all /\
    (forall t,
        fst (scandir_ sample ["/tmp"; "."] [dirent_type_value t] false
               sample_world) =
        Returned (of_type t)) /\
    List.length all =
    (List.length (of_type UV_DIRENT_UNKNOWN) +
     List.length (of_type UV_DIRENT_FILE) +
     List.length (of_type UV_DIRENT_DIR) +
     List.length (of_type UV_DIRENT_LINK) +
     List.length (of_type UV_DIRENT_FIFO) +
     List.length (of_type UV_DIRENT_SOCKET) +
     List.length (of_type UV_DIRENT_CHAR) +
     List.length (of_type UV_DIRENT_BLOCK))%nat.
Proof.
  apply (scandir_type_filters_partition sample ["/tmp"; "."]
           (fun _ => sample_entries) [] false sample_world).
  - discriminate.
  - reflexivity.
  - exact sample_listing_ok.
Defined.
